(** * The user resolvers of [server/resolvers.js]

    The GraphQL server keeps one module-level array [users] and four
    resolver functions over it: the queries [users] and [user], and the
    mutations [createUser] and [deleteUser].  This file embeds the array
    primitives the resolvers call ([find], [findIndex], [push], [splice],
    [String]) with their ECMAScript behaviour, the resolvers themselves as
    computations over the shared array, and proves the properties of the
    query/mutation contract.  Two callers are embedded as well: the port
    selection of [server/index.js], and the README's client, which drives
    [createUser] and [users] from its button handler and renders the list.

    Modelling choices.
    - A user object is a record of three strings.  The resolvers never
      assign to a field of an object once it is built, so an object is
      identified with its contents.
    - The module-level [users] array is the state threaded through every
      resolver; [push] and [splice] mutate it in place, which is state
      passing here.
    - A resolver either completes normally with a value or throws; in both
      cases the array it leaves behind is part of the result, so that
      "the list is unchanged when the call throws" is a statement to prove
      and not a convention.
    - [undefined] (the result of [find] without a match, or of indexing an
      empty array) is [None]; the GraphQL layer serialises it as [null].
    - GraphQL coerces [ID] and [String] arguments to strings before the
      resolver runs, so arguments are strings and [===] is string equality.
    - Arrays are unbounded lists (the 2^32 - 1 length limit of an engine is
      out of reach of a process-local tutorial list). *)

From Stdlib Require Import ZArith Decimal DecimalString.
From Stdlib Require DecimalFacts DecimalNat.
From stdpp Require Import base list strings.

Local Open Scope string_scope.
Local Open Scope list_scope.

(** ** Data model *)

Module User.

(** [{ id, username, email }] *)
Record t : Type := mk { id : string; username : string; email : string }.

End User.

(** ** The array primitives used by the resolvers *)

Module JSArray.

Section Ops.
Context {A : Type}.

(** [arr.find(p)]: first element satisfying [p], [undefined] otherwise. *)
Fixpoint find (p : A -> bool) (arr : list A) : option A :=
  match arr with
  | [] => None
  | x :: rest => if p x then Some x else find p rest
  end.

(** [arr.findIndex(p)]: index of the first element satisfying [p], scanning
    from index [k]; [-1] when there is none. *)
Fixpoint findIndex_from (k : Z) (p : A -> bool) (arr : list A) : Z :=
  match arr with
  | [] => (-1)%Z
  | x :: rest => if p x then k else findIndex_from (k + 1)%Z p rest
  end.

Definition findIndex (p : A -> bool) (arr : list A) : Z :=
  findIndex_from 0%Z p arr.

(** [arr.push(x)]: the array afterwards. *)
Definition push (x : A) (arr : list A) : list A := arr ++ [x].

(** [arr.splice(start, deleteCount)]: a negative [start] counts from the end,
    the start is clamped to [[0, length]] and the count to what is left.
    Returns the array of removed elements and the array afterwards. *)
Definition splice (start deleteCount : Z) (arr : list A) : list A * list A :=
  let len := Z.of_nat (length arr) in
  let actualStart :=
    if (start <? 0)%Z then Z.max (len + start) 0 else Z.min start len in
  let actualDeleteCount := Z.min (Z.max deleteCount 0) (len - actualStart) in
  let s := Z.to_nat actualStart in
  let d := Z.to_nat actualDeleteCount in
  (take d (drop s arr), take s arr ++ drop (s + d) arr).

(** [arr[i]] for a literal index: [undefined] out of range. *)
Definition index (arr : list A) (i : nat) : option A := arr !! i.

End Ops.

End JSArray.

(** [String(n)] for a non-negative integer [n]: its decimal digits.  ([n] is
    an array length plus one, far below the magnitudes where JavaScript
    numbers lose integer precision or print with an exponent.) *)
Definition String_ (n : nat) : string :=
  NilZero.string_of_uint (Nat.to_uint n).

(** ** Resolver computations *)

(** How a call ends: normally with a value, or by [throw new Error(msg)]. *)
Inductive completion (A : Type) : Type :=
| Normal (v : A)
| Throw (msg : string).
Arguments Normal {A} v.
Arguments Throw {A} msg.

(** A resolver runs against the module-level array and leaves it behind. *)
Definition Resolver (A : Type) : Type :=
  list User.t -> completion A * list User.t.

Definition ret {A} (v : A) : Resolver A := fun arr => (Normal v, arr).

Definition bind {A B} (m : Resolver A) (k : A -> Resolver B) : Resolver B :=
  fun arr =>
    match m arr with
    | (Normal v, arr') => k v arr'
    | (Throw msg, arr') => (Throw msg, arr')
    end.

Definition throw {A} (msg : string) : Resolver A := fun arr => (Throw msg, arr).

(** Read the array, and replace its contents. *)
Definition get : Resolver (list User.t) := fun arr => (Normal arr, arr).
Definition put (arr' : list User.t) : Resolver unit := fun _ => (Normal tt, arr').

(** The resolvers are written with the monad notations [x ← m; k] and
    [m;; k]. *)
#[global] Instance resolver_ret : MRet Resolver := @ret.
#[global] Instance resolver_bind : MBind Resolver := fun A B k m => bind m k.

Definition outcome {A} (r : completion A * list User.t) : completion A := fst r.
Definition final {A} (r : completion A * list User.t) : list User.t := snd r.

(** ** [server/resolvers.js] *)

(** [let users = [ ... ]]: the array of a freshly started process. *)
Definition seed : list User.t :=
  [ User.mk "1" "john_doe" "john@example.com";
    User.mk "2" "jane_smith" "jane@example.com" ].

(** [(user) => user.id === id] *)
Definition has_id (id : string) (user : User.t) : bool :=
  String.eqb (User.id user) id.

Module Query.

(** [users: () => users] *)
Definition users : Resolver (list User.t) := get.

(** [user: (parent, { id }) => users.find((user) => user.id === id)] *)
Definition user (id : string) : Resolver (option User.t) :=
  users ← get;
  mret (JSArray.find (has_id id) users).

End Query.

Module Mutation.

(** [createUser: (parent, { username, email }) => { ... }] *)
Definition createUser (username email : string) : Resolver User.t :=
  users ← get;
  let user := User.mk (String_ (length users + 1)) username email in
  put (JSArray.push user users);;
  mret user.

(** [deleteUser: (parent, { id }) => { ... }] *)
Definition deleteUser (id : string) : Resolver (option User.t) :=
  users ← get;
  let userIndex := JSArray.findIndex (has_id id) users in
  if (userIndex =? -1)%Z then throw "User not found"
  else
    let '(removed, users') := JSArray.splice userIndex 1 users in
    put users';;
    let deletedUser := JSArray.index removed 0 in
    mret deletedUser.

End Mutation.

(** ** Requests against the running process *)

(** One request to the server calls one resolver. *)
Inductive Request : Type :=
| ReqUsers
| ReqUser (id : string)
| ReqCreateUser (username email : string)
| ReqDeleteUser (id : string).

(** The array after serving one request. *)
Definition serve (req : Request) (arr : list User.t) : list User.t :=
  match req with
  | ReqUsers => final (Query.users arr)
  | ReqUser id => final (Query.user id arr)
  | ReqCreateUser username email => final (Mutation.createUser username email arr)
  | ReqDeleteUser id => final (Mutation.deleteUser id arr)
  end.

(** The entries one request appends (what [createUser] returns). *)
Definition appended (req : Request) (arr : list User.t) : list User.t :=
  match req with
  | ReqCreateUser username email =>
      match outcome (Mutation.createUser username email arr) with
      | Normal user => [user]
      | Throw _ => []
      end
  | _ => []
  end.

(** The array after a sequence of requests, served in order. *)
Fixpoint serve_all (reqs : list Request) (arr : list User.t) : list User.t :=
  match reqs with
  | [] => arr
  | req :: rest => serve_all rest (serve req arr)
  end.

(** Every entry appended while serving a sequence of requests, in order. *)
Fixpoint appended_all (reqs : list Request) (arr : list User.t) : list User.t :=
  match reqs with
  | [] => []
  | req :: rest => appended req arr ++ appended_all rest (serve req arr)
  end.

(** The ids of the entries of an array, in order. *)
Definition ids (arr : list User.t) : list string := map User.id arr.

(** ** Two request scripts *)

(** Create two users, delete the first of them, create a third. *)
Definition create_create_delete_create
    (username1 email1 username2 email2 username3 email3 : string)
  : Resolver (User.t * User.t * option User.t * User.t) :=
  first ← Mutation.createUser username1 email1;
  second ← Mutation.createUser username2 email2;
  deleted ← Mutation.deleteUser (User.id first);
  third ← Mutation.createUser username3 email3;
  mret (first, second, deleted, third).

(** Create a user and delete the id that came back. *)
Definition create_then_delete (username email : string)
  : Resolver (User.t * option User.t) :=
  created ← Mutation.createUser username email;
  deleted ← Mutation.deleteUser (User.id created);
  mret (created, deleted).

(** ** Counting over requests and entries *)

Definition is_create (req : Request) : bool :=
  match req with ReqCreateUser _ _ => true | _ => false end.

Definition is_delete (req : Request) : bool :=
  match req with ReqDeleteUser _ => true | _ => false end.

(** How many [createUser] and [deleteUser] requests a sequence holds. *)
Definition creates (reqs : list Request) : nat :=
  length (List.filter is_create reqs).
Definition deletes (reqs : list Request) : nat :=
  length (List.filter is_delete reqs).

(** The entries of an array with the given id, and the others, in order. *)
Definition with_id (id : string) (arr : list User.t) : list User.t :=
  List.filter (has_id id) arr.
Definition without_id (id : string) (arr : list User.t) : list User.t :=
  List.filter (λ user, negb (has_id id user)) arr.

(** The ids an array has when nothing was ever deleted from it:
    [String(1)], ..., [String(length)]. *)
Definition sequential (arr : list User.t) : Prop :=
  ids arr = map String_ (seq 1 (length arr)).

(** Every entry has as id the decimal digits of a number that is at least
    its position in the array (counted from one) and at most [hi]. *)
Definition positioned (hi : nat) (arr : list User.t) : Prop :=
  ∀ i user, arr !! i = Some user →
    ∃ k, User.id user = String_ k ∧ (i + 1 ≤ k ≤ hi)%nat.

(** ** [server/index.js]: the port *)

Module Server.

(** A JavaScript value that is a string or a number. *)
Inductive value : Type :=
| Str (s : string)
| Num (n : nat).

(** [a || b] on such values, with [a] possibly [undefined]: [b] when [a] is
    [undefined] or the empty string, else [a].  (The only falsy string is
    the empty one; an environment variable is never a number.) *)
Definition or_else (a : option string) (b : value) : value :=
  match a with
  | None => b
  | Some "" => b
  | Some s => Str s
  end.

(** [`${v}`] *)
Definition to_string (v : value) : string :=
  match v with
  | Str s => s
  | Num n => String_ n
  end.

(** [const PORT = process.env.PORT || 4000], from the value of the
    environment variable. *)
Definition PORT (env_PORT : option string) : value :=
  or_else env_PORT (Num 4000).

(** [`Server running at http://localhost:${PORT}/graphql`] without its first
    three words: the address the server announces. *)
Definition announced (env_PORT : option string) : string :=
  ("http://localhost:" ++ to_string (PORT env_PORT) ++ "/graphql")%string.

End Server.

(** ** The client of the README *)

Module Client.

(** [uri: "http://localhost:4000/graphql"] of the Apollo client. *)
Definition uri : string := "http://localhost:4000/graphql".






End Client.

(** * Sanity checks of the embedding *)

Example String_3 : String_ 3 = "3".
Proof. reflexivity. Qed.

Example String_120 : String_ 120 = "120".
Proof. reflexivity. Qed.

Example splice_negative_start :
  JSArray.splice (-1) 1 [1; 2; 3] = ([3], [1; 2]).
Proof. reflexivity. Qed.

Example splice_past_end :
  JSArray.splice 7 1 [1; 2; 3] = ([], [1; 2; 3]).
Proof. reflexivity. Qed.

Example createUser_seed :
  Mutation.createUser "a" "b" seed
  = (Normal (User.mk "3" "a" "b"), seed ++ [User.mk "3" "a" "b"]).
Proof. reflexivity. Qed.

Example deleteUser_seed_1 :
  Mutation.deleteUser "1" seed
  = (Normal (Some (User.mk "1" "john_doe" "john@example.com")),
     [User.mk "2" "jane_smith" "jane@example.com"]).
Proof. reflexivity. Qed.

Example deleteUser_seed_999 :
  Mutation.deleteUser "999" seed = (Throw "User not found", seed).
Proof. reflexivity. Qed.

Example user_seed_999 : Query.user "999" seed = (Normal None, seed).
Proof. reflexivity. Qed.

(** * Properties of the array primitives *)

Section ArrayFacts.
Context {A : Type} (p : A -> bool).

Lemma findIndex_from_range k (arr : list A) :
  JSArray.findIndex_from k p arr = (-1)%Z
  ∨ (k ≤ JSArray.findIndex_from k p arr < k + Z.of_nat (length arr))%Z.
Proof.
  revert k. induction arr as [|x rest IH]; intros k; simpl; [by left|].
  destruct (p x); [right; lia|].
  destruct (IH (k + 1)%Z) as [->|?]; [by left|right; lia].
Qed.

Lemma findIndex_from_none k (arr : list A) :
  Forall (λ x, p x = false) arr → JSArray.findIndex_from k p arr = (-1)%Z.
Proof.
  intros H. revert k. induction H as [|x rest Hx _ IH]; intros k; simpl; [done|].
  by rewrite Hx.
Qed.

Lemma findIndex_from_first k (pre : list A) x post :
  Forall (λ y, p y = false) pre → p x = true →
  JSArray.findIndex_from k p (pre ++ x :: post) = (k + Z.of_nat (length pre))%Z.
Proof.
  intros H Hx. revert k. induction H as [|y pre Hy _ IH]; intros k; simpl.
  - rewrite Hx. lia.
  - rewrite Hy, IH. lia.
Qed.

Lemma find_none (arr : list A) :
  Forall (λ x, p x = false) arr → JSArray.find p arr = None.
Proof. induction 1 as [|x rest Hx _ IH]; simpl; [done|by rewrite Hx]. Qed.

Lemma find_first (pre : list A) x post :
  Forall (λ y, p y = false) pre → p x = true →
  JSArray.find p (pre ++ x :: post) = Some x.
Proof.
  intros H Hx. induction H as [|y pre Hy _ IH]; simpl; [by rewrite Hx|].
  by rewrite Hy.
Qed.

(** An array either has no element satisfying [p], or splits at the first
    one. *)
Lemma first_split (arr : list A) :
  Forall (λ x, p x = false) arr
  ∨ ∃ pre x post,
      arr = pre ++ x :: post ∧ Forall (λ y, p y = false) pre ∧ p x = true.
Proof.
  induction arr as [|x rest IH]; [by left|].
  destruct (p x) eqn:Hx.
  - right. by exists [], x, rest.
  - destruct IH as [H|(pre & y & post & -> & Hpre & Hy)].
    + left. by constructor.
    + right. exists (x :: pre), y, post. split_and!; [done|by constructor|done].
Qed.

(** Splicing one element out at the position after [pre]. *)
Lemma splice_one (pre : list A) x post :
  JSArray.splice (Z.of_nat (length pre)) 1 (pre ++ x :: post)
  = ([x], pre ++ post).
Proof.
  unfold JSArray.splice.
  rewrite length_app; simpl length.
  destruct (Z.ltb_spec (Z.of_nat (length pre)) 0) as [?|_]; [lia|].
  rewrite (Z.min_l (Z.of_nat (length pre))) by lia.
  rewrite Z.max_l, Z.min_l by lia.
  rewrite Nat2Z.id. change (Z.to_nat 1) with 1.
  rewrite drop_app_length, take_app_length.
  f_equal. f_equal.
  replace (length pre + 1) with (length pre + 1 + 0) by lia.
  rewrite <- Nat.add_assoc.
  change (pre ++ x :: post) with (pre ++ [x] ++ post).
  by rewrite drop_app_add', drop_app_add' by done.
Qed.

End ArrayFacts.

(** * The resolvers in closed form *)

Lemma has_id_true id (user : User.t) : has_id id user = true ↔ User.id user = id.
Proof. unfold has_id. apply String.eqb_eq. Qed.

Lemma has_id_false id (user : User.t) : has_id id user = false ↔ User.id user ≠ id.
Proof. unfold has_id. apply String.eqb_neq. Qed.

(** "No entry of [arr] has id [id]", in the two forms used below. *)
Lemma no_match_Forall id (arr : list User.t) :
  (¬ ∃ user, user ∈ arr ∧ User.id user = id)
  ↔ Forall (λ user, has_id id user = false) arr.
Proof.
  rewrite Forall_forall. split.
  - intros H user Hin. apply has_id_false. intros Heq. apply H. by exists user.
  - intros H (user & Hin & Heq). by apply (has_id_false id user); [apply H|].
Qed.

Ltac run_resolver :=
  unfold Query.users, Query.user, Mutation.createUser, Mutation.deleteUser,
    mbind, mret, resolver_bind, resolver_ret, bind, ret, throw, get, put;
  cbn beta iota.

Lemma users_eq (arr : list User.t) : Query.users arr = (Normal arr, arr).
Proof. reflexivity. Qed.

Lemma user_eq id (arr : list User.t) :
  Query.user id arr = (Normal (JSArray.find (has_id id) arr), arr).
Proof. reflexivity. Qed.

Lemma createUser_eq username email (arr : list User.t) :
  let user := User.mk (String_ (length arr + 1)) username email in
  Mutation.createUser username email arr = (Normal user, arr ++ [user]).
Proof. reflexivity. Qed.

Lemma deleteUser_absent id (arr : list User.t) :
  Forall (λ user, has_id id user = false) arr →
  Mutation.deleteUser id arr = (Throw "User not found", arr).
Proof.
  intros H. run_resolver. unfold JSArray.findIndex.
  by rewrite findIndex_from_none.
Qed.

Lemma deleteUser_present id (pre : list User.t) user post :
  Forall (λ other, has_id id other = false) pre → has_id id user = true →
  Mutation.deleteUser id (pre ++ user :: post) = (Normal (Some user), pre ++ post).
Proof.
  intros Hpre Huser. run_resolver. unfold JSArray.findIndex.
  rewrite findIndex_from_first, Z.add_0_l by done.
  destruct (Z.eqb_spec (Z.of_nat (length pre)) (-1)) as [?|_]; [lia|].
  by rewrite splice_one.
Qed.

(** Where [deleteUser] throws, the message is the one of the source. *)
Lemma deleteUser_throw_inv id (arr : list User.t) msg :
  outcome (Mutation.deleteUser id arr) = Throw msg →
  msg = "User not found" ∧ Forall (λ user, has_id id user = false) arr.
Proof.
  destruct (first_split (has_id id) arr) as [H|(pre & user & post & -> & Hpre & Hu)].
  - rewrite deleteUser_absent by done. simpl. intros [= <-]. done.
  - rewrite deleteUser_present by done. simpl. discriminate.
Qed.

(** * The query/mutation contract *)

(** C1: [deleteUser(id)] throws "User not found" exactly when no entry of the
    list has that id, and whenever it throws the list is left as it was. *)
Theorem deleteUser_not_found_iff (arr : list User.t) (id : string) :
  (outcome (Mutation.deleteUser id arr) = Throw "User not found"
   ↔ ¬ ∃ user, user ∈ arr ∧ User.id user = id)
  ∧ (∀ msg, outcome (Mutation.deleteUser id arr) = Throw msg →
            final (Mutation.deleteUser id arr) = arr).
Proof.
  split; [split|].
  - intros H. apply no_match_Forall. by apply deleteUser_throw_inv in H as [_ ?].
  - intros H. apply no_match_Forall in H. by rewrite deleteUser_absent.
  - intros msg H. apply deleteUser_throw_inv in H as [_ H].
    by rewrite deleteUser_absent.
Qed.

(** C2: id uniqueness is not preserved.  From the seeded list (whose ids are
    distinct), creating two users, deleting the first created one and
    creating a third gives the third the id of the remaining second one, so
    the list ends with a duplicate id. *)
Theorem id_collision_after_delete
    (username1 email1 username2 email2 username3 email3 : string) :
  ∃ first second third arr,
    create_create_delete_create
      username1 email1 username2 email2 username3 email3 seed
    = (Normal (first, second, Some first, third), arr)
    ∧ arr = seed ++ [second; third]
    ∧ User.id third = User.id second
    ∧ NoDup (ids seed)
    ∧ ¬ NoDup (ids arr).
Proof.
  eexists _, _, _, _. split_and!; try reflexivity.
  - by apply (bool_decide_unpack _); vm_compute.
  - by apply (bool_decide_unpack _); vm_compute.
Qed.

(** C3: [createUser(username, email)] never throws; it appends exactly one
    entry at the end of the list, the entries that were there stay as they
    were and in order, the new entry has id [String(previous length + 1)]
    and the given username and email, and it is the value returned. *)
Theorem createUser_appends (arr : list User.t) (username email : string) :
  let user := User.mk (String_ (length arr + 1)) username email in
  let after := final (Mutation.createUser username email arr) in
  outcome (Mutation.createUser username email arr) = Normal user
  ∧ after = arr ++ [user]
  ∧ length after = length arr + 1
  ∧ take (length arr) after = arr
  ∧ (∀ i, i < length arr → after !! i = arr !! i)
  ∧ after !! length arr = Some user
  ∧ User.id user = String_ (length arr + 1)
  ∧ User.username user = username
  ∧ User.email user = email.
Proof.
  intros user after. subst after. rewrite createUser_eq. simpl.
  split_and!; try done.
  - rewrite length_app. simpl. lia.
  - by rewrite take_app_length.
  - intros i Hi. by rewrite lookup_app_l.
  - by rewrite list_lookup_middle.
Qed.

(** C4: when some entry of the list has the given id, [deleteUser(id)]
    removes the first entry with that id and nothing else: the entries before
    and after it stay, in order, the length drops by one, and the removed
    entry is the value returned. *)
Theorem deleteUser_removes_first (arr : list User.t) (id : string) :
  (∃ user, user ∈ arr ∧ User.id user = id) →
  ∃ pre user post,
    arr = pre ++ user :: post
    ∧ (∀ other, other ∈ pre → User.id other ≠ id)
    ∧ User.id user = id
    ∧ outcome (Mutation.deleteUser id arr) = Normal (Some user)
    ∧ final (Mutation.deleteUser id arr) = pre ++ post
    ∧ length (final (Mutation.deleteUser id arr)) + 1 = length arr.
Proof.
  intros Hex.
  destruct (first_split (has_id id) arr) as [H|(pre & user & post & -> & Hpre & Hu)].
  - apply no_match_Forall in H. by destruct H.
  - exists pre, user, post. rewrite deleteUser_present by done. simpl.
    split_and!; try done.
    + intros other Hin. apply has_id_false.
      by apply (proj1 (Forall_forall _ _) Hpre).
    + by apply has_id_true.
    + rewrite !length_app. simpl. lia.
Qed.

(** C5: [user(id)] returns the first entry of the list whose id is the
    argument when there is one, and the empty result (not an error) when no
    entry has that id. *)
Theorem user_finds_first (arr : list User.t) (id : string) :
  ((∃ user, user ∈ arr ∧ User.id user = id) →
   ∃ pre user post,
     arr = pre ++ user :: post
     ∧ (∀ other, other ∈ pre → User.id other ≠ id)
     ∧ User.id user = id
     ∧ outcome (Query.user id arr) = Normal (Some user))
  ∧ ((¬ ∃ user, user ∈ arr ∧ User.id user = id) →
     outcome (Query.user id arr) = Normal None).
Proof.
  rewrite user_eq. simpl. split.
  - intros Hex.
    destruct (first_split (has_id id) arr)
      as [H|(pre & user & post & -> & Hpre & Hu)].
    + apply no_match_Forall in H. by destruct H.
    + exists pre, user, post. rewrite find_first by done.
      split_and!; try done.
      * intros other Hin. apply has_id_false.
        by apply (proj1 (Forall_forall _ _) Hpre).
      * by apply has_id_true.
  - intros H. apply no_match_Forall in H. by rewrite find_none.
Qed.

(** Serving one request keeps the entries in order: what is left is a
    subsequence of the old array followed by what the request appended. *)
Lemma serve_sublist (req : Request) (arr : list User.t) :
  sublist (serve req arr) (arr ++ appended req arr).
Proof.
  destruct req as [|id|username email|id]; cbn [serve appended].
  - by rewrite app_nil_r, users_eq.
  - by rewrite app_nil_r, user_eq.
  - by rewrite createUser_eq.
  - rewrite app_nil_r.
    destruct (first_split (has_id id) arr)
      as [H|(pre & user & post & -> & Hpre & Hu)].
    + by rewrite deleteUser_absent.
    + rewrite deleteUser_present by done. simpl.
      apply sublist_app; [done|]. by apply sublist_cons.
Qed.

Lemma serve_all_sublist (reqs : list Request) (arr : list User.t) :
  sublist (serve_all reqs arr) (arr ++ appended_all reqs arr).
Proof.
  revert arr. induction reqs as [|req rest IH]; intros arr; simpl.
  - by rewrite app_nil_r.
  - etrans; [apply IH|]. rewrite (assoc_L (++)).
    apply sublist_app; [apply serve_sublist|done].
Qed.

(** C6: [users()] never throws and returns the whole current list, as it
    is.  The current list is in insertion order: after any sequence of
    requests from any starting list, it is a subsequence of the starting
    entries followed by the created entries in the order of their creation. *)
Theorem users_returns_all :
  (∀ arr : list User.t, outcome (Query.users arr) = Normal arr)
  ∧ (∀ (reqs : list Request) (arr0 : list User.t),
       outcome (Query.users (serve_all reqs arr0)) = Normal (serve_all reqs arr0)
       ∧ sublist (serve_all reqs arr0) (arr0 ++ appended_all reqs arr0)).
Proof.
  split; [done|]. intros reqs arr0. split; [done|apply serve_all_sublist].
Qed.

(** C7: on a freshly started process [users()] returns the two seeded
    entries, and [user("1")] returns the [john_doe] entry. *)
Theorem fresh_process_queries :
  outcome (Query.users seed)
  = Normal [ User.mk "1" "john_doe" "john@example.com";
             User.mk "2" "jane_smith" "jane@example.com" ]
  ∧ outcome (Query.user "1" seed)
    = Normal (Some (User.mk "1" "john_doe" "john@example.com")).
Proof. split; reflexivity. Qed.

(** C8: [users()], [user(id)] and [createUser(username, email)] complete
    normally on every list and every arguments; the only throw is the one of
    [deleteUser], and its message is "User not found". *)
Theorem only_deleteUser_throws (arr : list User.t) (id username email : string) :
  (∃ v, outcome (Query.users arr) = Normal v)
  ∧ (∃ v, outcome (Query.user id arr) = Normal v)
  ∧ (∃ v, outcome (Mutation.createUser username email arr) = Normal v)
  ∧ (∀ msg, outcome (Mutation.deleteUser id arr) = Throw msg →
            msg = "User not found").
Proof.
  split_and!; [by eexists..|].
  intros msg H. by apply deleteUser_throw_inv in H as [? _].
Qed.

(** C9: the queries are read-only: [users()] and [user(id)] leave the list
    as it was. *)
Theorem queries_read_only (arr : list User.t) (id : string) :
  final (Query.users arr) = arr ∧ final (Query.user id arr) = arr.
Proof. split; reflexivity. Qed.

(** C10: when no entry of the list has id [String(length + 1)], creating a
    user and deleting the id that came back returns the created entry and
    restores the list.  When an entry with that id is already there, the
    delete removes the first such entry, and the created one stays. *)
Theorem create_then_delete_round_trip (username email : string) :
  (∀ arr : list User.t,
     (¬ ∃ user, user ∈ arr ∧ User.id user = String_ (length arr + 1)) →
     ∃ created,
       create_then_delete username email arr
       = (Normal (created, Some created), arr))
  ∧ (∀ (pre : list User.t) old post,
       (∀ other, other ∈ pre →
                 User.id other ≠ String_ (length (pre ++ old :: post) + 1)) →
       User.id old = String_ (length (pre ++ old :: post) + 1) →
       ∃ created,
         create_then_delete username email (pre ++ old :: post)
         = (Normal (created, Some old), pre ++ post ++ [created])).
Proof.
  split.
  - intros arr H. apply no_match_Forall in H.
    eexists. unfold create_then_delete, mbind, resolver_bind, bind.
    rewrite createUser_eq. cbn beta iota zeta.
    rewrite deleteUser_present; [by rewrite app_nil_r|done|].
    by apply has_id_true.
  - intros pre old post Hpre Hold.
    eexists. unfold create_then_delete, mbind, resolver_bind, bind.
    rewrite createUser_eq. cbn beta iota zeta.
    rewrite <- (assoc_L (++)). simpl.
    rewrite deleteUser_present; [done| |by apply has_id_true].
    apply Forall_forall. intros other Hin. apply has_id_false. by apply Hpre.
Qed.

(** * The theorems at concrete lists *)

(** Closes "no entry of this explicit list has this id" by going through
    the entries. *)
Ltac no_such_id :=
  let user := fresh "user" in
  let Hin := fresh "Hin" in
  let Heq := fresh "Heq" in
  intros (user & Hin & Heq); unfold seed in Hin;
  repeat (apply elem_of_cons in Hin as [->|Hin]; [discriminate Heq|]);
  by apply elem_of_nil in Hin.

(** C1 on the seeded list: ["999"] is the id of no entry, so the call
    throws and the list stays; ["1"] is the id of an entry, so it does not
    throw "User not found". *)
Lemma deleteUser_not_found_iff_witness :
  outcome (Mutation.deleteUser "999" seed) = Throw "User not found"
  ∧ final (Mutation.deleteUser "999" seed) = seed
  ∧ outcome (Mutation.deleteUser "1" seed) ≠ Throw "User not found".
Proof.
  split_and!.
  - apply (proj2 (proj1 (deleteUser_not_found_iff seed "999"))).
    no_such_id.
  - apply (proj2 (deleteUser_not_found_iff seed "999") "User not found").
    vm_compute. reflexivity.
  - intros H.
    apply (proj1 (proj1 (deleteUser_not_found_iff seed "1")) H).
    exists (User.mk "1" "john_doe" "john@example.com").
    split; [left|reflexivity].
Defined.

(** C4 on the seeded list with id ["2"]. *)
Lemma deleteUser_removes_first_witness :
  ∃ pre user post,
    seed = pre ++ user :: post
    ∧ (∀ other, other ∈ pre → User.id other ≠ "2")
    ∧ User.id user = "2"
    ∧ outcome (Mutation.deleteUser "2" seed) = Normal (Some user)
    ∧ final (Mutation.deleteUser "2" seed) = pre ++ post
    ∧ length (final (Mutation.deleteUser "2" seed)) + 1 = length seed.
Proof.
  apply (deleteUser_removes_first seed "2").
  exists (User.mk "2" "jane_smith" "jane@example.com").
  split; [right; left|reflexivity].
Defined.

(** C5 on the seeded list: ["2"] is found, ["999"] gives the empty result. *)
Lemma user_finds_first_witness :
  (∃ pre user post,
     seed = pre ++ user :: post
     ∧ (∀ other, other ∈ pre → User.id other ≠ "2")
     ∧ User.id user = "2"
     ∧ outcome (Query.user "2" seed) = Normal (Some user))
  ∧ outcome (Query.user "999" seed) = Normal None.
Proof.
  split.
  - apply (proj1 (user_finds_first seed "2")).
    exists (User.mk "2" "jane_smith" "jane@example.com").
    split; [right; left|reflexivity].
  - apply (proj2 (user_finds_first seed "999")).
    no_such_id.
Defined.

(** C8 on the seeded list: the throw of [deleteUser("999")]. *)
Lemma only_deleteUser_throws_witness :
  outcome (Mutation.deleteUser "999" seed) = Throw "User not found"
  ∧ "User not found" = "User not found".
Proof.
  split; [reflexivity|].
  apply (proj2 (proj2 (proj2 (only_deleteUser_throws seed "999" "a" "b")))
           "User not found").
  reflexivity.
Defined.

(** C10 on the seeded list, where id ["3"] is free, and on a one-entry list
    whose entry already has id ["2"]: there the delete removes the old entry
    and the list is not restored. *)
Lemma create_then_delete_round_trip_witness :
  (∃ created,
     create_then_delete "a" "b" seed = (Normal (created, Some created), seed))
  ∧ (∃ created,
       create_then_delete "a" "b" [User.mk "2" "jane_smith" "jane@example.com"]
       = (Normal (created, Some (User.mk "2" "jane_smith" "jane@example.com")),
          [created])
       ∧ [created] ≠ [User.mk "2" "jane_smith" "jane@example.com"]).
Proof.
  split.
  - apply (proj1 (create_then_delete_round_trip "a" "b") seed).
    no_such_id.
  - destruct (proj2 (create_then_delete_round_trip "a" "b") []
                (User.mk "2" "jane_smith" "jane@example.com") [])
      as [created Hcreated].
    + intros other Hin. inversion Hin.
    + reflexivity.
    + exists created. split; [exact Hcreated|].
      vm_compute in Hcreated. injection Hcreated as <-. discriminate.
Defined.

(** * How the resolvers work together *)

Lemma find_app {A} (p : A → bool) (pre post : list A) :
  JSArray.find p (pre ++ post)
  = match JSArray.find p pre with
    | Some x => Some x
    | None => JSArray.find p post
    end.
Proof. induction pre as [|x pre IH]; simpl; [done|]. by destruct (p x). Qed.

Lemma has_id_other id id' (user : User.t) :
  id' ≠ id → has_id id user = true → has_id id' user = false.
Proof.
  intros Hne Hid. apply has_id_true in Hid. apply has_id_false. congruence.
Qed.

Lemma filter_none {A} (p : A → bool) (arr : list A) :
  Forall (λ x, p x = false) arr → List.filter p arr = [].
Proof. induction 1 as [|x rest Hx _ IH]; simpl; [done|by rewrite Hx]. Qed.

(** X1: [deleteUser(id)] and [user(id)] pick the same entry: the delete returns
    the entry the query returns, and throws exactly where the query has the
    empty result. *)
Theorem deleteUser_agrees_with_user (arr : list User.t) (id : string) :
  match outcome (Query.user id arr) with
  | Normal (Some found) => outcome (Mutation.deleteUser id arr) = Normal (Some found)
  | Normal None => outcome (Mutation.deleteUser id arr) = Throw "User not found"
  | Throw _ => False
  end.
Proof.
  rewrite user_eq. simpl.
  destruct (first_split (has_id id) arr)
    as [H|(pre & user & post & -> & Hpre & Hu)].
  - by rewrite find_none, deleteUser_absent.
  - by rewrite find_first, deleteUser_present.
Qed.

(** X2: [deleteUser(id)] does not change what [user(id')] returns for any other
    id [id']. *)
Theorem deleteUser_keeps_other_lookups (arr : list User.t) (id id' : string) :
  id' ≠ id →
  outcome (Query.user id' (final (Mutation.deleteUser id arr)))
  = outcome (Query.user id' arr).
Proof.
  intros Hne. rewrite !user_eq. simpl. f_equal.
  destruct (first_split (has_id id) arr)
    as [H|(pre & user & post & -> & Hpre & Hu)].
  - by rewrite deleteUser_absent.
  - rewrite deleteUser_present by done. simpl.
    rewrite !find_app. simpl. by rewrite (has_id_other id id' user).
Qed.

(** X3: After [createUser], [user(id)] still returns the entry it returned
    before when there was one: an older entry with the new entry's id hides
    the new entry.  Where [user(id)] had the empty result, it now returns
    the created entry if [id] is its id, and the empty result otherwise. *)
Theorem createUser_then_user (arr : list User.t) (username email id : string) :
  let created := User.mk (String_ (length arr + 1)) username email in
  outcome (Query.user id (final (Mutation.createUser username email arr)))
  = match outcome (Query.user id arr) with
    | Normal (Some old) => Normal (Some old)
    | _ => if String.eqb (String_ (length arr + 1)) id
           then Normal (Some created) else Normal None
    end.
Proof.
  intros created. rewrite createUser_eq, !user_eq. simpl.
  rewrite find_app. destruct (JSArray.find (has_id id) arr); [done|].
  simpl. unfold has_id. simpl.
  by destruct (String.eqb (String_ (length arr + 1)) id).
Qed.

(** X4: [deleteUser(id)] leaves every entry with another id in place and in
    order, and takes away one entry with id [id] when there is one (none
    when it throws). *)
Theorem deleteUser_removes_one_of_id (arr : list User.t) (id : string) :
  let after := final (Mutation.deleteUser id arr) in
  without_id id after = without_id id arr
  ∧ length (with_id id after) = length (with_id id arr) - 1
  ∧ (∀ id', id' ≠ id → with_id id' after = with_id id' arr).
Proof.
  intros after. subst after. unfold without_id, with_id.
  destruct (first_split (has_id id) arr)
    as [H|(pre & user & post & -> & Hpre & Hu)].
  - rewrite deleteUser_absent by done. simpl.
    split_and!; [done| |done]. by rewrite filter_none.
  - rewrite deleteUser_present by done. simpl.
    rewrite !List.filter_app. simpl. rewrite Hu. simpl.
    split_and!; [done| |].
    + rewrite !length_app. simpl. lia.
    + intros id' Hne. rewrite !List.filter_app. simpl.
      by rewrite (has_id_other id id' user).
Qed.

(** * Ids and their uniqueness *)

(** [String] gives different digits to different numbers. *)
Lemma String_inj (n m : nat) : String_ n = String_ m → n = m.
Proof.
  unfold String_. intros H.
  assert (Hnonnil : ∀ k, Nat.to_uint k ≠ Nil).
  { intros k Hk. apply (DecimalFacts.unorm_nonnil (Nat.to_uint k)).
    rewrite <- DecimalNat.Unsigned.to_of, DecimalNat.Unsigned.of_to. exact Hk. }
  apply DecimalNat.Unsigned.to_uint_inj.
  assert (Hs : Some (Nat.to_uint n) = Some (Nat.to_uint m)).
  { rewrite <- (NilZero.usu (Nat.to_uint n)), <- (NilZero.usu (Nat.to_uint m))
      by apply Hnonnil. by rewrite H. }
  by injection Hs.
Qed.

Lemma ids_app (pre post : list User.t) : ids (pre ++ post) = ids pre ++ ids post.
Proof. unfold ids. apply map_app. Qed.

Lemma no_match_ids id (arr : list User.t) :
  Forall (λ user, has_id id user = false) arr ↔ id ∉ ids arr.
Proof.
  unfold ids. rewrite Forall_forall, list_elem_of_fmap. split.
  - intros H (user & -> & Hin). by apply (has_id_false (User.id user) user); [apply H|].
  - intros H user Hin. apply has_id_false. intros <-. apply H. by exists user.
Qed.

(** The ids after [createUser] are distinct exactly when they were distinct
    before and the new id was not in use. *)
Lemma createUser_NoDup username email (arr : list User.t) :
  NoDup (ids (final (Mutation.createUser username email arr)))
  ↔ NoDup (ids arr) ∧ String_ (length arr + 1) ∉ ids arr.
Proof.
  rewrite createUser_eq. simpl. rewrite ids_app. simpl.
  rewrite NoDup_app. split.
  - intros (Hnd & Hdisj & _). split; [done|].
    intros Hin. apply (Hdisj _ Hin). by left.
  - intros [Hnd Hfresh]. split_and!; [done| |apply NoDup_singleton].
    intros x Hx Hin. apply list_elem_of_singleton in Hin as ->. by apply Hfresh.
Qed.

(** The ids after [deleteUser] are a subsequence of the ids before. *)
Lemma deleteUser_ids_sublist id (arr : list User.t) :
  sublist (ids (final (Mutation.deleteUser id arr))) (ids arr).
Proof.
  destruct (first_split (has_id id) arr)
    as [H|(pre & user & post & -> & Hpre & Hu)].
  - by rewrite deleteUser_absent.
  - rewrite deleteUser_present by done. simpl. rewrite !ids_app. simpl.
    apply sublist_app; [done|]. by apply sublist_cons.
Qed.

(** With distinct ids, nothing with id [id] is left after [deleteUser(id)]. *)
Lemma deleteUser_gone id (arr : list User.t) :
  NoDup (ids arr) → id ∉ ids (final (Mutation.deleteUser id arr)).
Proof.
  intros Hnd.
  destruct (first_split (has_id id) arr)
    as [H|(pre & user & post & -> & Hpre & Hu)].
  - rewrite deleteUser_absent by done. simpl. by apply no_match_ids.
  - rewrite deleteUser_present by done. simpl.
    apply has_id_true in Hu. subst id.
    rewrite ids_app in Hnd |- *. simpl in Hnd.
    apply NoDup_app in Hnd as (_ & Hdisj & Hpost).
    apply NoDup_cons in Hpost as [Hnotin _].
    rewrite elem_of_app. intros [Hin|Hin]; [|done].
    apply (Hdisj _ Hin). by left.
Qed.

(** X5: [deleteUser] keeps distinct ids distinct, and with distinct ids the
    deleted id is gone: [user(id)] has the empty result afterwards and a
    second [deleteUser(id)] throws. *)
Theorem deleteUser_unique_ids (arr : list User.t) (id : string) :
  NoDup (ids arr) →
  let after := final (Mutation.deleteUser id arr) in
  NoDup (ids after)
  ∧ outcome (Query.user id after) = Normal None
  ∧ Mutation.deleteUser id after = (Throw "User not found", after).
Proof.
  intros Hnd after.
  pose proof (deleteUser_gone id arr Hnd) as Hgone.
  apply no_match_ids in Hgone. fold after in Hgone.
  split_and!.
  - apply (sublist_NoDup _ _ Hnd), deleteUser_ids_sublist.
  - rewrite user_eq. simpl. by rewrite find_none.
  - by apply deleteUser_absent.
Qed.

(** X6: Two [createUser] calls give their entries the same id exactly when the
    lists they ran on had the same length. *)
Theorem createUser_same_id_iff_same_length
    (arr1 arr2 : list User.t) (username1 email1 username2 email2 : string)
    (created1 created2 : User.t) :
  outcome (Mutation.createUser username1 email1 arr1) = Normal created1 →
  outcome (Mutation.createUser username2 email2 arr2) = Normal created2 →
  (User.id created1 = User.id created2 ↔ length arr1 = length arr2).
Proof.
  rewrite !createUser_eq. simpl. intros [= <-] [= <-]. simpl. split.
  - intros H. apply String_inj in H. lia.
  - by intros ->.
Qed.

(** X7: On a list with distinct ids, [createUser] keeps the ids distinct exactly
    when no entry already has the id [String(length + 1)]. *)
Theorem createUser_keeps_ids_unique_iff
    (arr : list User.t) (username email : string) :
  NoDup (ids arr) →
  (NoDup (ids (final (Mutation.createUser username email arr)))
   ↔ ¬ ∃ user, user ∈ arr ∧ User.id user = String_ (length arr + 1)).
Proof.
  intros Hnd. rewrite createUser_NoDup, no_match_Forall, no_match_ids. tauto.
Qed.

(** * Sequences of requests *)

Local Open Scope nat_scope.

Lemma creates_cons req (reqs : list Request) :
  creates (req :: reqs) = (if is_create req then 1 else 0) + creates reqs.
Proof. unfold creates. simpl. by destruct (is_create req). Qed.

Lemma deletes_cons req (reqs : list Request) :
  deletes (req :: reqs) = (if is_delete req then 1 else 0) + deletes reqs.
Proof. unfold deletes. simpl. by destruct (is_delete req). Qed.

(** What one request does to the length of the array. *)
Lemma serve_length req (arr : list User.t) :
  length (serve req arr) ≤ length arr + (if is_create req then 1 else 0)
  ∧ length arr + (if is_create req then 1 else 0)
    ≤ length (serve req arr) + (if is_delete req then 1 else 0).
Proof.
  destruct req as [|id|username email|id]; cbn [serve is_create is_delete].
  - rewrite users_eq. simpl. lia.
  - rewrite user_eq. simpl. lia.
  - rewrite createUser_eq. simpl. rewrite length_app. simpl. lia.
  - destruct (first_split (has_id id) arr)
      as [H|(pre & user & post & -> & Hpre & Hu)].
    + rewrite deleteUser_absent by done. simpl. lia.
    + rewrite deleteUser_present by done. simpl.
      rewrite !length_app. simpl. lia.
Qed.

Lemma serve_all_length (reqs : list Request) (arr : list User.t) :
  length (serve_all reqs arr) ≤ length arr + creates reqs
  ∧ length arr + creates reqs ≤ length (serve_all reqs arr) + deletes reqs.
Proof.
  revert arr. induction reqs as [|req rest IH]; intros arr.
  - unfold creates, deletes. simpl. lia.
  - rewrite creates_cons, deletes_cons. cbn [serve_all].
    destruct (IH (serve req arr)) as [IH1 IH2].
    destruct (serve_length req arr) as [H1 H2]. lia.
Qed.

(** X8: After any sequence of requests the list is at most as long as the
    starting list plus the number of [createUser] requests, and at least
    that long less the number of [deleteUser] requests: a query never changes
    the length, a create adds one entry, a delete removes at most one. *)
Theorem length_after_requests (reqs : list Request) (arr : list User.t) :
  length (serve_all reqs arr) ≤ length arr + creates reqs
  ∧ length arr + creates reqs - deletes reqs ≤ length (serve_all reqs arr).
Proof. destruct (serve_all_length reqs arr). lia. Qed.

Lemma seed_sequential : sequential seed.
Proof. reflexivity. Qed.

Lemma createUser_sequential username email (arr : list User.t) :
  sequential arr → sequential (final (Mutation.createUser username email arr)).
Proof.
  unfold sequential. intros H. rewrite createUser_eq. simpl.
  rewrite ids_app, length_app, H. simpl.
  by rewrite Nat.add_1_r, seq_S, map_app.
Qed.

Lemma sequential_NoDup (arr : list User.t) : sequential arr → NoDup (ids arr).
Proof.
  unfold sequential. intros ->.
  assert (Hinj : Inj (=) (=) String_) by exact String_inj.
  apply (NoDup_fmap_2 String_), NoDup_seq.
Qed.

Lemma serve_all_sequential (reqs : list Request) (arr : list User.t) :
  forallb (λ req, negb (is_delete req)) reqs = true →
  sequential arr →
  sequential (serve_all reqs arr)
  ∧ length (serve_all reqs arr) = length arr + creates reqs.
Proof.
  revert arr. induction reqs as [|req rest IH]; intros arr Hreqs Hseq.
  - unfold creates. simpl. split; [done|lia].
  - simpl in Hreqs. apply andb_prop in Hreqs as [Hreq Hrest].
    rewrite creates_cons. cbn [serve_all].
    destruct req as [|id|username email|id]; cbn [serve is_create];
      [| | |discriminate Hreq].
    + rewrite users_eq. simpl. by apply IH.
    + rewrite user_eq. simpl. by apply IH.
    + destruct (IH (final (Mutation.createUser username email arr)) Hrest)
        as [H1 H2]; [by apply createUser_sequential|].
      split; [done|]. rewrite H2, createUser_eq. simpl.
      rewrite length_app. simpl. lia.
Qed.

(** X9: As long as no [deleteUser] request is made, the ids of the list served
    from the seed are [String(1)], ..., [String(length)]: they are pairwise
    distinct, and the list has two entries more than there were [createUser]
    requests. *)
Theorem ids_sequential_without_delete (reqs : list Request) :
  forallb (λ req, negb (is_delete req)) reqs = true →
  ids (serve_all reqs seed)
  = map String_ (seq 1 (length (serve_all reqs seed)))
  ∧ NoDup (ids (serve_all reqs seed))
  ∧ length (serve_all reqs seed) = 2 + creates reqs.
Proof.
  intros Hreqs.
  destruct (serve_all_sequential reqs seed Hreqs seed_sequential) as [H1 H2].
  split_and!; [exact H1|by apply sequential_NoDup|exact H2].
Qed.

Lemma seed_positioned : positioned 2 seed.
Proof.
  intros i user Hi. destruct i as [|[|i]]; simpl in Hi; [| |done].
  - injection Hi as <-. exists 1. split; [done|lia].
  - injection Hi as <-. exists 2. split; [done|lia].
Qed.

Lemma positioned_mono hi hi' (arr : list User.t) :
  hi ≤ hi' → positioned hi arr → positioned hi' arr.
Proof.
  intros Hle H i user Hi. destruct (H i user Hi) as (k & Hk & Hb).
  exists k. split; [done|lia].
Qed.

Lemma serve_positioned req hi (arr : list User.t) :
  length arr ≤ hi → positioned hi arr →
  positioned (hi + (if is_create req then 1 else 0)) (serve req arr).
Proof.
  intros Hlen H.
  destruct req as [|id|username email|id]; cbn [serve is_create].
  - rewrite users_eq. simpl. by apply (positioned_mono hi); [lia|].
  - rewrite user_eq. simpl. by apply (positioned_mono hi); [lia|].
  - rewrite createUser_eq. simpl. intros i user Hi.
    apply lookup_app_Some in Hi as [Hi|[Hge Hi]].
    + destruct (H i user Hi) as (k & Hk & Hb). exists k. split; [done|lia].
    + destruct (i - length arr) as [|j] eqn:Hj; simpl in Hi; [|done].
      injection Hi as <-. exists (length arr + 1). split; [done|lia].
  - apply (positioned_mono hi); [lia|].
    destruct (first_split (has_id id) arr)
      as [Hno|(pre & user & post & -> & Hpre & Hu)].
    + by rewrite deleteUser_absent.
    + rewrite deleteUser_present by done. simpl. intros i other Hi.
      apply lookup_app_Some in Hi as [Hi|[Hge Hi]].
      * apply (H i other). by apply lookup_app_l_Some.
      * destruct (H (S i) other) as (k & Hk & Hb).
        { rewrite lookup_app_r by lia.
          replace (S i - length pre) with (S (i - length pre)) by lia. done. }
        exists k. split; [done|lia].
Qed.

Lemma serve_all_positioned (reqs : list Request) hi (arr : list User.t) :
  length arr ≤ hi → positioned hi arr →
  positioned (hi + creates reqs) (serve_all reqs arr).
Proof.
  revert hi arr. induction reqs as [|req rest IH]; intros hi arr Hlen H.
  - unfold creates. simpl. by apply (positioned_mono hi); [lia|].
  - rewrite creates_cons, Nat.add_assoc. cbn [serve_all].
    apply IH; [|by apply serve_positioned].
    destruct (serve_length req arr) as [Hle _]. lia.
Qed.

(** X10: Whatever requests are served from the seed, the id of the entry at
    position [i] (from zero) is the decimal form of a number that is at
    least [i + 1] and at most two plus the number of [createUser] requests:
    deletions move entries towards the front, never to the back, and ids are
    never rewritten. *)
Theorem ids_bounded_by_position (reqs : list Request) (i : nat) (user : User.t) :
  serve_all reqs seed !! i = Some user →
  ∃ k, User.id user = String_ k ∧ i + 1 ≤ k ≤ 2 + creates reqs.
Proof.
  intros Hi.
  apply (serve_all_positioned reqs 2 seed); [done|apply seed_positioned|done].
Qed.

(** An id other than the deleted one stays in the list. *)
Lemma deleteUser_keeps_other_ids id id' (arr : list User.t) :
  id' ≠ id → id' ∈ ids arr → id' ∈ ids (final (Mutation.deleteUser id arr)).
Proof.
  intros Hne Hin.
  destruct (first_split (has_id id) arr)
    as [H|(pre & user & post & -> & Hpre & Hu)].
  - by rewrite deleteUser_absent.
  - rewrite deleteUser_present by done. simpl.
    apply has_id_true in Hu. subst id.
    rewrite ids_app in Hin |- *. simpl in Hin.
    rewrite elem_of_app in Hin |- *. rewrite elem_of_cons in Hin.
    destruct Hin as [?|[?|?]]; [by left|done|by right].
Qed.

Lemma deleteUser_found_length id (arr : list User.t) :
  id ∈ ids arr →
  length (final (Mutation.deleteUser id arr)) + 1 = length arr.
Proof.
  intros Hin.
  destruct (first_split (has_id id) arr)
    as [H|(pre & user & post & -> & Hpre & Hu)].
  - by apply no_match_ids in H.
  - rewrite deleteUser_present by done. simpl. rewrite !length_app. simpl. lia.
Qed.

Lemma sequential_last_id (arr : list User.t) :
  sequential arr → arr ≠ [] → String_ (length arr) ∈ ids arr.
Proof.
  unfold sequential. intros -> Hne.
  apply list_elem_of_fmap. exists (length arr). split; [done|].
  apply elem_of_seq. destruct arr; [done|]. simpl. lia.
Qed.

(** X11: On a list with ids [String(1)], ..., [String(n)], deleting an existing
    id and then creating a user gives distinct ids exactly when the deleted
    id was the last one, [String(n)].  Deleting any other entry makes the
    next created entry share its id with the last entry. *)
Theorem delete_then_create_unique_iff_last
    (arr : list User.t) (id username email : string) :
  sequential arr →
  (∃ user, user ∈ arr ∧ User.id user = id) →
  let after_delete := final (Mutation.deleteUser id arr) in
  let after := final (Mutation.createUser username email after_delete) in
  (NoDup (ids after) ↔ id = String_ (length arr))
  ∧ (id = String_ (length arr) → sequential after ∧ length after = length arr).
Proof.
  intros Hseq Hex after_delete after.
  assert (Hin : id ∈ ids arr).
  { destruct Hex as (user & Huser & <-). unfold ids.
    apply list_elem_of_fmap. by exists user. }
  assert (Hne : arr ≠ []).
  { destruct Hex as (user & Huser & _). intros ->. by apply elem_of_nil in Huser. }
  pose proof (sequential_NoDup arr Hseq) as Hnd.
  pose proof (deleteUser_found_length id arr Hin) as Hlen.
  fold after_delete in Hlen.
  assert (Hiff : NoDup (ids after) ↔ id = String_ (length arr)).
  { subst after. rewrite createUser_NoDup, Hlen. split.
    - intros [_ Hfresh]. destruct (decide (id = String_ (length arr))); [done|].
      destruct Hfresh. apply deleteUser_keeps_other_ids; [done|].
      by apply sequential_last_id.
    - intros Heq. split.
      + apply (sublist_NoDup _ _ Hnd), deleteUser_ids_sublist.
      + rewrite <- Heq. by apply deleteUser_gone. }
  split; [exact Hiff|]. intros Heq.
  assert (Hafter : length after = length arr).
  { subst after. rewrite createUser_eq. simpl. rewrite length_app. simpl. lia. }
  split; [|exact Hafter].
  subst after. apply createUser_sequential.
  (* the deleted entry was the last one *)
  unfold sequential in *. subst after_delete.
  destruct (first_split (has_id id) arr)
    as [H|(pre & user & post & -> & Hpre & Hu)].
  { by apply no_match_ids in H. }
  rewrite deleteUser_present by done. simpl.
  apply has_id_true in Hu.
  destruct post as [|next post _] using rev_ind.
  - rewrite app_nil_r. rewrite ids_app, length_app in Hseq. simpl in Hseq.
    rewrite Nat.add_1_r, seq_S, map_app in Hseq.
    by apply app_inj_tail in Hseq as [? _].
  - exfalso. rewrite Heq in Hu.
    rewrite !ids_app in Hnd. simpl in Hnd. rewrite ids_app in Hnd. simpl in Hnd.
    apply NoDup_app in Hnd as (_ & _ & Hnd).
    apply NoDup_cons in Hnd as [Hnotin _]. apply Hnotin.
    rewrite elem_of_app. right.
    replace (pre ++ user :: post ++ [next]) with ((pre ++ user :: post) ++ [next])
      in Hseq, Hu by (by rewrite <- (assoc_L (++))).
    rewrite ids_app, length_app in Hseq. simpl in Hseq.
    rewrite Nat.add_1_r, seq_S, map_app in Hseq.
    apply app_inj_tail in Hseq as [_ Hnext].
    rewrite length_app, Nat.add_1_r in Hu. simpl in Hu, Hnext.
    rewrite Hu, <- Hnext. by left.
Qed.

(** * The client and the announced address *)

Lemma string_length_app (s t : string) :
  String.length (s ++ t)%string = String.length s + String.length t.
Proof. induction s as [|c s IH]; simpl; [done|by rewrite IH]. Qed.

Lemma string_app_inv_tail (s s' t : string) :
  (s ++ t)%string = (s' ++ t)%string → s = s'.
Proof.
  revert s'. induction s as [|c s IH]; intros [|c' s'] H; simpl in H.
  - done.
  - apply (f_equal String.length) in H. simpl in H.
    rewrite !string_length_app in H. simpl in H. lia.
  - apply (f_equal String.length) in H. simpl in H.
    rewrite !string_length_app in H. simpl in H. lia.
  - injection H as -> H. by rewrite (IH s' H).
Qed.

(** X12: The address the server announces is the address the client is
    configured with exactly when the PORT variable of the environment is
    unset, empty, or ["4000"]; an empty PORT falls back to 4000 like an unset
    one. *)
Theorem announced_is_client_uri_iff (env_PORT : option string) :
  Server.announced env_PORT = Client.uri
  ↔ env_PORT = None ∨ env_PORT = Some "" ∨ env_PORT = Some "4000".
Proof.
  split.
  - destruct env_PORT as [[|c s]|]; [by right; left| |by left].
    unfold Server.announced, Server.PORT, Server.or_else, Server.to_string,
      Client.uri.
    intros H. right; right. f_equal.
    apply (inj (String.app "http://localhost:")) in H.
    by apply (string_app_inv_tail _ "4000" "/graphql").
  - by intros [->|[->| ->]].
Qed.




(** * The further properties at concrete lists *)

(** Deleting ["1"] from the seeded list does not change [user("2")]. *)
Lemma deleteUser_keeps_other_lookups_witness :
  outcome (Query.user "2" (final (Mutation.deleteUser "1" seed)))
  = outcome (Query.user "2" seed).
Proof. apply (deleteUser_keeps_other_lookups seed "1" "2"). discriminate. Defined.

(** Deleting ["1"] from the seeded list keeps the entries with id ["2"]. *)
Lemma deleteUser_removes_one_of_id_witness :
  with_id "2" (final (Mutation.deleteUser "1" seed)) = with_id "2" seed.
Proof.
  apply (proj2 (proj2 (deleteUser_removes_one_of_id seed "1")) "2"). discriminate.
Defined.

(** The seeded list has distinct ids; after [deleteUser("1")] the id is gone. *)
Lemma deleteUser_unique_ids_witness :
  NoDup (ids (final (Mutation.deleteUser "1" seed)))
  ∧ outcome (Query.user "1" (final (Mutation.deleteUser "1" seed))) = Normal None
  ∧ Mutation.deleteUser "1" (final (Mutation.deleteUser "1" seed))
    = (Throw "User not found", final (Mutation.deleteUser "1" seed)).
Proof.
  apply (deleteUser_unique_ids seed "1").
  apply (bool_decide_unpack _). vm_compute. reflexivity.
Defined.

(** Two creations on lists of length two both get id ["3"]. *)
Lemma createUser_same_id_iff_same_length_witness :
  User.id (User.mk "3" "a" "b") = User.id (User.mk "3" "c" "d")
  ↔ length seed = length (rev seed).
Proof.
  apply (createUser_same_id_iff_same_length seed (rev seed) "a" "b" "c" "d");
    reflexivity.
Defined.

(** On the seeded list id ["3"] is free and a creation keeps the ids
    distinct. *)
Lemma createUser_keeps_ids_unique_iff_witness :
  NoDup (ids (final (Mutation.createUser "a" "b" seed)))
  ↔ ¬ ∃ user, user ∈ seed ∧ User.id user = String_ (length seed + 1).
Proof.
  apply (createUser_keeps_ids_unique_iff seed "a" "b").
  apply (bool_decide_unpack _). vm_compute. reflexivity.
Defined.

(** A creation and a query, no deletion. *)
Lemma ids_sequential_without_delete_witness :
  ids (serve_all [ReqCreateUser "a" "b"; ReqUser "1"] seed)
  = map String_ (seq 1 (length (serve_all [ReqCreateUser "a" "b"; ReqUser "1"] seed)))
  ∧ NoDup (ids (serve_all [ReqCreateUser "a" "b"; ReqUser "1"] seed))
  ∧ length (serve_all [ReqCreateUser "a" "b"; ReqUser "1"] seed)
    = 2 + creates [ReqCreateUser "a" "b"; ReqUser "1"].
Proof.
  apply (ids_sequential_without_delete [ReqCreateUser "a" "b"; ReqUser "1"]).
  reflexivity.
Defined.

(** After a creation and the deletion of ["1"], the entry at position 1 is
    the created one, with id ["3"]. *)
Lemma ids_bounded_by_position_witness :
  ∃ k, User.id (User.mk "3" "a" "b") = String_ k
       ∧ 1 + 1 ≤ k ≤ 2 + creates [ReqCreateUser "a" "b"; ReqDeleteUser "1"].
Proof.
  apply (ids_bounded_by_position [ReqCreateUser "a" "b"; ReqDeleteUser "1"] 1).
  reflexivity.
Defined.

(** On the seeded list, deleting ["1"] (not the last id) and creating gives a
    duplicate id. *)
Lemma delete_then_create_unique_iff_last_witness :
  ¬ NoDup (ids (final (Mutation.createUser "a" "b"
                         (final (Mutation.deleteUser "1" seed))))).
Proof.
  intros Hnd.
  assert (Hex : ∃ user, user ∈ seed ∧ User.id user = "1").
  { exists (User.mk "1" "john_doe" "john@example.com").
    split; [left|reflexivity]. }
  pose proof (proj1 (proj1
    (delete_then_create_unique_iff_last seed "1" "a" "b" seed_sequential Hex))
    Hnd) as Heq.
  discriminate Heq.
Defined.

